(** * A user-account service: login, bearer tokens and CRUD over one table

    Shallow embedding of [app.py].  The service keeps one table [users]
    (SQLAlchemy model [User]) behind sessions made by [SessionLocal], hashes
    passwords with a passlib [CryptContext] and signs tokens with
    [jose.jwt].

    Conventions of the embedding.
    - A request handler is a computation in the monad [M]: it reads and
      writes a [World] (the rows of [users], the sessions handed out so far
      and a trace of session events) and either returns a value or raises an
      exception ([exn]).
    - The rows of [users] are kept as a list in row order; the constraints
      that the model class declares ([primary_key=True] on [id],
      [unique=True] on [username]) are enforced where SQLAlchemy enforces
      them, at [commit].  Besides constraint violations a statement can
      fail in the engine (OperationalError: a locked database, a missing
      table); the world carries, for the statements to come, whether the
      engine fails on them ([faults]).  SQLite holds signed 64-bit
      integers: an integer parameter outside that range is refused with
      OverflowError when the statement is bound.
    - [pwd_context] and [jose.jwt] are libraries from outside the repository:
      the handlers are written against the interfaces [CryptContext] and
      [Jose]; what is assumed of an implementation is stated as the law
      classes [CryptLaws] and [JoseLaws].
    - [datetime.utcnow()] is an explicit clock reading, in whole seconds
      since the epoch (the resolution of a token's [exp] field).  *)

From Stdlib Require Import ZArith Lia.
From stdpp Require Import base option list gmap strings pretty.

Local Open Scope string_scope.
Local Open Scope Z_scope.

(** ** Exceptions and results *)

(** The subclasses of [jose.JWTError] that [jwt.decode] raises. *)
Inductive jwt_error : Type :=
  | JWTErrorBase            (* bad signature, malformed token, wrong algorithm *)
  | ExpiredSignatureError   (* [exp] lies in the past *)
  | JWTClaimsError.         (* a registered claim has the wrong shape *)

Inductive exn : Type :=
  | HTTPException (status_code : Z) (detail : string)
                  (headers : list (string * string))
  | KeyError (key : string)
  | JWTError (e : jwt_error)
  | UnknownHashError
  | PasswordValueError      (* passlib: a NUL character in the password *)
  | IntegrityError
  | OperationalError
  | OverflowError.          (* sqlite3: an int too large for an INTEGER *)

Inductive result (A : Type) : Type :=
  | Ok (a : A)
  | Raise (e : exn).
Arguments Ok {A} a.
Arguments Raise {A} e.

Definition HTTP_401_UNAUTHORIZED : Z := 401.

(** ** Data model *)

Record date : Type := Date { year : Z; month : Z; day : Z }.

(** class User(Base) *)
Record User : Type := mkUser {
  id : Z;
  username : string;
  hashed_password : string;
  nama : string;
  jenis_kelamin : option Z;
  tanggal_lahir : option date
}.

(** class UserLogin(BaseModel) *)
Record UserLogin : Type := mkUserLogin {
  login_username : string;
  login_password : string
}.

(** class InputUser(BaseModel); an [Optional] field that the body leaves out
    (or gives as null) is [None]. *)
Record InputUser : Type := mkInputUser {
  in_username : string;
  in_nama : string;
  in_jenis_kelamin : option Z;
  in_tanggal_lahir : option date;
  in_password : string
}.

(** ** The world: table, sessions, trace *)

Inductive event : Type :=
  | Acquire (s : nat)   (* SessionLocal() returned session [s] *)
  | Stmt (s : nat)      (* a query or a commit ran on session [s] *)
  | Release (s : nat).  (* [s].close() *)

Record World : Type := mkWorld {
  users : list User;          (* rows of table [users], in row order *)
  sessions_made : nat;        (* how many sessions SessionLocal has made *)
  live : list nat;            (* sessions made and not yet closed *)
  trace : list event;         (* session events, oldest first *)
  faults : list bool          (* for each statement to come: does the engine
                                 fail on it?  none left: it does not *)
}.

Definition set_users (us : list User) (w : World) : World :=
  mkWorld us (sessions_made w) (live w) (trace w) (faults w).

Definition log (e : event) (w : World) : World :=
  mkWorld (users w) (sessions_made w) (live w) (trace w ++ [e]) (faults w).

(** ** The handler monad: state plus exceptions *)

Definition M (A : Type) : Type := World → result A * World.

Definition ret {A} (a : A) : M A := fun w => (Ok a, w).
Definition raise {A} (e : exn) : M A := fun w => (Raise e, w).
Definition bind {A B} (k : A → M B) (m : M A) : M B :=
  fun w => match m w with
           | (Ok a, w') => k a w'
           | (Raise e, w') => (Raise e, w')
           end.
(** [try: m finally: h] runs [h] on both exits of [m]. *)
Definition finally {A} (m : M A) (h : M unit) : M A :=
  fun w => match m w with
           | (r, w') => match h w' with
                        | (Ok _, w'') => (r, w'')
                        | (Raise e, w'') => (Raise e, w'')
                        end
           end.
(** A pure library call that may raise. *)
Definition lift {A} (r : result A) : M A := fun w => (r, w).

#[global] Instance M_ret : MRet M := @ret.
#[global] Instance M_bind : MBind M := @bind.

(** ** Sessions *)

(** SessionLocal() *)
Definition SessionLocal : M nat := fun w =>
  let s := sessions_made w in
  (Ok s, mkWorld (users w) (S s) (live w ++ [s]) (trace w ++ [Acquire s])
                 (faults w)).

(** db.close(); closing a closed session changes nothing but the trace. *)
Definition close (db : nat) : M unit := fun w =>
  (Ok tt, mkWorld (users w) (sessions_made w)
                  (filter (λ s, s ≠ db) (live w)) (trace w ++ [Release db])
                  (faults w)).

(** def get_db(): the dependency wraps the handler body in try/finally. *)
Definition get_db {A} (body : nat → M A) : M A :=
  db ← SessionLocal;
  finally (body db) (close db).

(** ** Statements on the table *)

Definition set_faults (fs : list bool) (w : World) : World :=
  mkWorld (users w) (sessions_made w) (live w) (trace w) fs.

(** A statement sent to the engine on session [db]: the engine runs it or
    raises OperationalError. *)
Definition stmt (db : nat) : M unit := fun w =>
  match faults w with
  | [] => (Ok tt, log (Stmt db) w)
  | false :: fs => (Ok tt, log (Stmt db) (set_faults fs w))
  | true :: fs => (Raise OperationalError, log (Stmt db) (set_faults fs w))
  end.

(** Whether an integer parameter fits an SQLite INTEGER. *)
Definition fits (z : Z) : bool := bool_decide (- 2 ^ 63 ≤ z < 2 ^ 63).
Definition fits_opt (o : option Z) : bool :=
  match o with Some z => fits z | None => true end.

#[global] Arguments fits : simpl never.
#[global] Arguments fits_opt : simpl never.

(** db.query(User).filter(User.username == username).first() *)
Definition find_by_username (name : string) (us : list User) : option User :=
  List.find (λ u, bool_decide (username u = name)) us.

(** db.query(User).filter(User.id == user_id).first() *)
Definition find_by_id (uid : Z) (us : list User) : option User :=
  List.find (λ u, bool_decide (id u = uid)) us.

(** Reading and replacing the rows inside a transaction. *)
Definition rows : M (list User) := fun w => (Ok (users w), w).
Definition store (us : list User) : M unit := fun w => (Ok tt, set_users us w).

Definition query_by_username (db : nat) (name : string) : M (option User) :=
  stmt db;; us ← rows; mret (find_by_username name us).

Definition query_by_id (db : nat) (uid : Z) : M (option User) :=
  stmt db;;
  if fits uid then us ← rows; mret (find_by_id uid us)
  else raise OverflowError.

(** db.query(User).all() *)
Definition query_all (db : nat) : M (list User) :=
  stmt db;; rows.

(** The integer primary key of a new row: one more than the largest in use. *)
Definition next_id (us : list User) : Z :=
  1 + foldr (λ u m, Z.max (id u) m) 0 us.

(** db.add(u); db.commit(): the INSERT is refused with OverflowError when
    jenis_kelamin does not fit, with IntegrityError when the unique index
    on [username] already holds the name; otherwise the row gets its id
    and is appended. *)
Definition add_commit (db : nat) (uname hashed nm : string)
    (jk : option Z) (tl : option date) : M User :=
  stmt db;;
  if fits_opt jk then
    us ← rows;
    match find_by_username uname us with
    | Some _ => raise IntegrityError
    | None =>
        let row := mkUser (next_id us) uname hashed nm jk tl in
        store (us ++ [row]);; mret row
    end
  else raise OverflowError.

(** db.refresh(u): a SELECT that reloads the row just written. *)
Definition refresh (db : nat) (u : User) : M User :=
  stmt db;; mret u.

(** db.delete(user); db.commit(): DELETE ... WHERE users.id = user.id *)
Definition delete_commit (db : nat) (u : User) : M unit :=
  stmt db;;
  us ← rows;
  store (filter (λ r, id r ≠ id u) us).

(** The three attribute assignments of [update_user] on the loaded row. *)
Definition assign_fields (inp : InputUser) (r : User) : User :=
  mkUser (id r) (username r) (hashed_password r)
         (in_nama inp) (in_jenis_kelamin inp) (in_tanggal_lahir inp).

(** db.commit() after the assignments: UPDATE ... WHERE users.id = user.id *)
Definition update_commit (db : nat) (u : User) (inp : InputUser) : M unit :=
  stmt db;;
  if fits_opt (in_jenis_kelamin inp) then
    us ← rows;
    store ((λ r, if bool_decide (id r = id u) then assign_fields inp r else r)
             <$> us)
  else raise OverflowError.

(** ** Library interfaces *)

(** The values a token's claims hold here. *)
Inductive value : Type :=
  | VNone
  | VStr (s : string)
  | VInt (n : Z)
  | VDatetime (t : Z).   (* a [datetime], as seconds since the epoch *)

(** passlib's [CryptContext]: [hash] draws a salt, here an argument, and
    gives a hash or raises; [verify] answers or raises. *)
Class CryptContext : Type := {
  ctx_hash : string → string → result string;   (* salt, secret *)
  ctx_verify : string → string → result bool    (* secret, hash *)
}.

(** [jose.jwt]: [encode(claims, key, algorithm)] and
    [decode(token, key, algorithms)]; [decode] reads the clock. *)
Class Jose : Type := {
  token : Type;
  jwt_encode : gmap string value → string → string → token;
  jwt_decode : Z → token → string → list string → result (gmap string value)
}.

(** What the handlers' callers may assume of [pwd_context]: a hash it has
    made accepts the password it was made from. *)
Class CryptLaws (C : CryptContext) : Prop := {
  verify_own_hash : ∀ salt p h,
    ctx_hash salt p = Ok h → ctx_verify p h = Ok true
}.

(** What is assumed of [jose.jwt], for tokens of the shape that
    [create_access_token] signs for [login]: until [exp] the token decodes
    to its claims, [exp] as a number; after [exp] decoding raises
    ExpiredSignatureError. *)
Class JoseLaws (J : Jose) : Prop := {
  decode_before_exp : ∀ (u key alg : string) (e now : Z),
    now ≤ e →
    jwt_decode now
      (jwt_encode (<["exp" := VDatetime e]> {["sub" := VStr u]}) key alg)
      key [alg]
    = Ok (<["exp" := VInt e]> {["sub" := VStr u]});
  decode_after_exp : ∀ (u key alg : string) (e now : Z),
    e < now →
    jwt_decode now
      (jwt_encode (<["exp" := VDatetime e]> {["sub" := VStr u]}) key alg)
      key [alg]
    = Raise (JWTError ExpiredSignatureError)
}.

#[global] Instance result_ret : MRet result := @Ok.
#[global] Instance result_bind : MBind result := λ A B k r,
  match r with Ok a => k a | Raise e => Raise e end.

(** ** FUNGSI *)

Section Functions.
Context {C : CryptContext} {J : Jose}.

(** def verify_password(plain_password, hashed_password) *)
Definition verify_password (plain_password hashed : string) : result bool :=
  ctx_verify plain_password hashed.

(** def get_password_hash(password) *)
Definition get_password_hash (salt password : string) : result string :=
  ctx_hash salt password.

(** timedelta(minutes=30), in seconds *)
Definition minutes_30 : Z := 30 * 60.

(** The dict handed to [jwt.encode]: a copy of [data] with "exp" set. *)
Definition to_encode (now : Z) (data : gmap string value) : gmap string value :=
  let expire := now + minutes_30 in
  <["exp" := VDatetime expire]> data.

(** def create_access_token(data: dict) *)
Definition create_access_token (now : Z) (data : gmap string value) : token :=
  jwt_encode (to_encode now data) "secret-key" "HS256".

(** def get_user(db, username) *)
Definition get_user (db : nat) (name : string) : M (option User) :=
  query_by_username db name.

(** credentials["sub"]: indexing a dict raises KeyError on a missing key. *)
Definition getitem (d : gmap string value) (k : string) : result value :=
  match d !! k with
  | Some v => Ok v
  | None => Raise (KeyError k)
  end.

(** def verify_token(db, token, credentials_exception) *)
Definition verify_token (now : Z) (db : nat) (tok : token)
    (credentials_exception : exn) : result value :=
  credentials ← jwt_decode now tok "secret-key" ["HS256"];
  username ← getitem credentials "sub";
  match username with
  | VNone => Raise credentials_exception
  | _ => Ok username
  end.

(** ** OPERASI *)

Record LoginResponse : Type := mkLoginResponse {
  access_token : token;
  token_type : string
}.

Definition unauthorized : exn :=
  HTTPException HTTP_401_UNAUTHORIZED "Invalid username or password"
                [("WWW-Authenticate", "Bearer")].

Definition not_found : exn :=
  HTTPException 404 "User tidak ditemukan." [].

(** @app.post("/login") *)
Definition login (now : Z) (user : UserLogin) : M LoginResponse :=
  get_db (λ db,
    db_user ← get_user db (login_username user);
    rejected ← match db_user with
               | None => mret true
               | Some u =>
                   ok ← lift (verify_password (login_password user)
                                              (hashed_password u));
                   mret (negb ok)
               end;
    if rejected : bool then raise unauthorized
    else
      let tok := create_access_token now
                   {["sub" := VStr (login_username user)]} in
      mret (mkLoginResponse tok "bearer")).

(** @app.post("/users") *)
Definition create_user (salt : string) (input_user : InputUser) : M User :=
  get_db (λ db,
    hashed ← lift (get_password_hash salt (in_password input_user));
    db_user ← add_commit db (in_username input_user) hashed
                (in_nama input_user) (in_jenis_kelamin input_user)
                (in_tanggal_lahir input_user);
    db_user ← refresh db db_user;
    close db;;
    mret db_user).

(** @app.get("/users/daftar") *)
Definition daftar_user : M (list User) :=
  db ← SessionLocal;
  result_users ← query_all db;
  close db;;
  mret result_users.

(** @app.get("/users/{user_id}") *)
Definition get_users (user_id : Z) : M User :=
  db ← SessionLocal;
  user ← query_by_id db user_id;
  close db;;
  match user with
  | None => raise not_found
  | Some u => mret u
  end.

(** @app.delete("/users/{user_id}") *)
Definition delete_user (user_id : Z) : M string :=
  db ← SessionLocal;
  user ← query_by_id db user_id;
  match user with
  | None => close db;; raise not_found
  | Some u =>
      delete_commit db u;;
      close db;;
      mret ("User dengan ID " +:+ pretty user_id +:+ " berhasil dihapus.")
  end.

(** @app.put("/users/{user_id}") *)
Definition update_user (user_id : Z) (input_user : InputUser) : M string :=
  db ← SessionLocal;
  existing_user ← query_by_id db user_id;
  match existing_user with
  | None => close db;; raise not_found
  | Some u =>
      update_commit db u input_user;;
      close db;;
      mret ("User dengan ID " +:+ pretty user_id +:+ " berhasil diupdate.")
  end.

End Functions.

(** ** Reference implementations of the interfaces

    Small implementations with the observable shape of the two libraries.
    They show that the law classes can be met and give the theorems below
    concrete instances to run on. *)

Module Reference.

(** *** Tokens, symbolically

    A signed token is its payload together with the key and algorithm it
    was signed with; any other string is [Garbage]. *)
Inductive sym_token : Type :=
  | Signed (payload : gmap string value) (key alg : string)
  | Garbage (s : string).

Definition numeric_date (v : value) : value :=
  match v with VDatetime t => VInt t | _ => v end.

(** [encode] turns the datetimes under exp, iat and nbf into numbers. *)
Definition sym_encode (claims : gmap string value) (key alg : string)
    : sym_token :=
  Signed (foldr (alter numeric_date) claims ["exp"; "iat"; "nbf"]) key alg.

Definition check_sub (p : gmap string value) : result (gmap string value) :=
  match p !! "sub" with
  | None | Some (VStr _) => Ok p
  | Some _ => Raise (JWTError JWTClaimsError)
  end.

(** [decode]: signature and algorithm first, then exp, then sub. *)
Definition sym_decode (now : Z) (tok : sym_token) (key : string)
    (algs : list string) : result (gmap string value) :=
  match tok with
  | Garbage _ => Raise (JWTError JWTErrorBase)
  | Signed p k a =>
      if bool_decide (k = key ∧ a ∈ algs) then
        match p !! "exp" with
        | None => check_sub p
        | Some (VInt e) =>
            if bool_decide (e < now)
            then Raise (JWTError ExpiredSignatureError)
            else check_sub p
        | Some _ => Raise (JWTError JWTClaimsError)
        end
      else Raise (JWTError JWTErrorBase)
  end.

#[export] Instance sym_jose : Jose :=
  {| token := sym_token; jwt_encode := sym_encode; jwt_decode := sym_decode |}.

(** *** Password hashes

    A hash is the scheme marker, 22 salt characters and a digest.
    [verify] raises UnknownHashError on a string without the marker,
    as passlib does for a string it cannot identify; [hash] and
    [verify] raise PasswordValueError on a secret with a NUL character. *)
Section Hasher.
Variable kdf : string → string → string.   (* salt, secret ↦ digest *)

Definition marker : string := "$2b$12$".

(** The first [n] characters of [s], filled up with '.' *)
Fixpoint pad (n : nat) (s : string) : string :=
  match n, s with
  | O, _ => EmptyString
  | S n', EmptyString => String (Ascii.ascii_of_nat 46) (pad n' EmptyString)
  | S n', String c s' => String c (pad n' s')
  end.

Fixpoint strip_prefix (p s : string) : option string :=
  match p, s with
  | EmptyString, _ => Some s
  | String a p', String b s' =>
      if bool_decide (a = b) then strip_prefix p' s' else None
  | String _ _, EmptyString => None
  end.

Fixpoint split_at (n : nat) (s : string) : option (string * string) :=
  match n, s with
  | O, _ => Some (EmptyString, s)
  | S n', String c s' =>
      match split_at n' s' with
      | Some (a, b) => Some (String c a, b)
      | None => None
      end
  | S _, EmptyString => None
  end.

(** Whether a secret holds a NUL character, which the scheme refuses. *)
Fixpoint has_nul (s : string) : bool :=
  match s with
  | EmptyString => false
  | String c s' => bool_decide (c = Ascii.zero) || has_nul s'
  end.

Definition ref_digest (salt secret : string) : string :=
  let s := pad 22 salt in
  marker +:+ s +:+ kdf s secret.

Definition ref_hash (salt secret : string) : result string :=
  if has_nul secret then Raise PasswordValueError
  else Ok (ref_digest salt secret).

Definition ref_verify (secret hashed : string) : result bool :=
  match strip_prefix marker hashed with
  | None => Raise UnknownHashError
  | Some rest =>
      match split_at 22 rest with
      | None => Raise UnknownHashError
      | Some (s, digest) =>
          if has_nul secret then Raise PasswordValueError
          else Ok (bool_decide (kdf s secret = digest))
      end
  end.

Definition ref_context : CryptContext :=
  {| ctx_hash := ref_hash; ctx_verify := ref_verify |}.

End Hasher.

(** A stand-in digest, for running examples. *)
Definition toy_kdf (salt secret : string) : string := secret +:+ salt.

#[export] Instance toy_context : CryptContext := ref_context toy_kdf.

End Reference.

(** ** Worlds the service can be in *)

(** No session is open and nothing is stored: the service at start-up. *)
Definition init_world : World := mkWorld [] 0 [] [] [].

(** Every live session was handed out by [SessionLocal]. *)
Definition session_ok (w : World) : Prop :=
  Forall (λ s, (s < sessions_made w)%nat) (live w).

(** A handler run from [w] took exactly one session, the next one, as its
    first step, used no other, closed it as its last step and left the set
    of live sessions as it found it. *)
Definition scoped {A} (m : M A) (w : World) : Prop :=
  let w' := (m w).2 in
  let s := sessions_made w in
  sessions_made w' = S s ∧
  live w' = live w ∧
  ∃ body, trace w' = (trace w ++ Acquire s :: body ++ [Release s])%list ∧
          Forall (λ e, e = Stmt s ∨ e = Release s) body.

(** The requests of the HTTP interface. *)
Inductive request : Type :=
  | PostLogin (now : Z) (user : UserLogin)
  | PostUsers (salt : string) (input_user : InputUser)
  | GetDaftar
  | GetUser (user_id : Z)
  | DeleteUser (user_id : Z)
  | PutUser (user_id : Z) (input_user : InputUser).

Section Service.
Context {C : CryptContext} {J : Jose}.

(** The world after serving a request. *)
Definition serve (r : request) (w : World) : World :=
  match r with
  | PostLogin now user => (login now user w).2
  | PostUsers salt input_user => (create_user salt input_user w).2
  | GetDaftar => (daftar_user w).2
  | GetUser user_id => (get_users user_id w).2
  | DeleteUser user_id => (delete_user user_id w).2
  | PutUser user_id input_user => (update_user user_id input_user w).2
  end.

(** The worlds the service gets to from an empty table: by serving a
    request, or by the engine changing its mind about the statements to
    come. *)
Inductive reachable : World → Prop :=
  | reach_init : reachable init_world
  | reach_serve r w : reachable w → reachable (serve r w)
  | reach_faults fs w : reachable w → reachable (set_faults fs w).


(** The exception a result carries, if it is one. *)
Definition failure {A} (r : result A) : option exn :=
  match r with Ok _ => None | Raise e => Some e end.

(** The exception that serving a request ends in, if it does. *)
Definition serve_failure (r : request) (w : World) : option exn :=
  match r with
  | PostLogin now user => failure (login now user w).1
  | PostUsers salt input_user => failure (create_user salt input_user w).1
  | GetDaftar => failure (daftar_user w).1
  | GetUser user_id => failure (get_users user_id w).1
  | DeleteUser user_id => failure (delete_user user_id w).1
  | PutUser user_id input_user => failure (update_user user_id input_user w).1
  end.
End Service.


(** ** Example data *)

Definition bob_input : InputUser :=
  mkInputUser "bob" "Bob" (Some 1) (Some (Date 1990 5 17)) "pw123".

Definition bobby_input : InputUser :=
  mkInputUser "robert" "Bobby" None None "other".

(** The table after POST /users with [bob_input] on an empty store. *)
Definition bob_row : User :=
  mkUser 1 "bob" (Reference.ref_digest Reference.toy_kdf "salt" "pw123")
         "Bob" (Some 1) (Some (Date 1990 5 17)).

Definition alice_row : User :=
  mkUser 2 "alice" (Reference.ref_digest Reference.toy_kdf "pepper" "s3cret")
         "Alice" (Some 2) None.

Definition two_users : World := mkWorld [bob_row; alice_row] 2 [] [] [].

(** The world after POST /users with alice, then the same again. *)
Definition alice_input : InputUser :=
  mkInputUser "alice" "Alice" (Some 2) None "s3cret".

Definition after_alice : World :=
  serve (C:=Reference.toy_context) (J:=Reference.sym_jose)
        (PostUsers "pepper" alice_input) init_world.

(** [two_users] with an engine that fails on the next statement, and one
    that runs the next statement and fails on the one after it. *)
Definition query_fails : World := set_faults [true] two_users.
Definition commit_fails : World := set_faults [false; true] two_users.

(** The world after POST /users with bob on an empty store. *)
Definition after_bob : World :=
  serve (C:=Reference.toy_context) (J:=Reference.sym_jose)
        (PostUsers "salt" bob_input) init_world.


Definition carol_input : InputUser :=
  mkInputUser "carol" "Carol" None (Some (Date 2001 12 31)) "hunter2".

(** The row that POST /users with [carol_input] and salt "nacl" adds to
    [two_users]. *)
Definition carol_row : User :=
  mkUser 3 "carol" (Reference.ref_digest Reference.toy_kdf "nacl" "hunter2")
         "Carol" None (Some (Date 2001 12 31)).

(** A token signed with the service's key and algorithm whose payload is
    {"exp": 1700001800}. *)
Definition token_without_sub : Reference.sym_token :=
  Reference.Signed {["exp" := VInt 1700001800]} "secret-key" "HS256".

(** ** The reference implementations meet the laws *)

Module ReferenceLaws.
Import Reference.

Lemma strip_prefix_app p s : strip_prefix p (p +:+ s) = Some s.
Proof.
  induction p as [|a p IH]; simpl; [done|].
  by rewrite bool_decide_true.
Qed.

Lemma split_at_pad n s t : split_at n (pad n s +:+ t) = Some (pad n s, t).
Proof.
  revert s; induction n as [|n IH]; intros s; simpl; [done|].
  destruct s as [|c s]; simpl; by rewrite IH.
Qed.

Lemma ref_verify_digest kdf salt p q :
  has_nul q = false →
  ref_verify kdf q (ref_digest kdf salt p)
  = Ok (bool_decide (kdf (pad 22 salt) q = kdf (pad 22 salt) p)).
Proof.
  intros Hq. unfold ref_verify, ref_digest.
  by rewrite strip_prefix_app, split_at_pad, Hq.
Qed.

Lemma ref_laws kdf : CryptLaws (ref_context kdf).
Proof.
  split; simpl. intros salt p h. unfold ref_hash.
  destruct (has_nul p) eqn:Hp; [done|]. intros [= <-].
  rewrite ref_verify_digest by done. by rewrite bool_decide_true.
Qed.


Lemma toy_laws : CryptLaws toy_context.
Proof. apply ref_laws. Qed.

Lemma sym_encode_issued (u key alg : string) (e : Z) :
  sym_encode (<["exp" := VDatetime e]> {["sub" := VStr u]}) key alg
  = Signed (<["exp" := VInt e]> {["sub" := VStr u]}) key alg.
Proof.
  reflexivity.
Qed.

Lemma sym_laws : JoseLaws sym_jose.
Proof.
  split; intros u key alg e now Hle;
    unfold jwt_decode, jwt_encode, sym_jose;
    rewrite sym_encode_issued; unfold sym_decode.
  - rewrite bool_decide_true by (split; [done | set_solver]).
    rewrite lookup_insert_eq.
    rewrite bool_decide_false by lia.
    unfold check_sub. by rewrite lookup_insert_ne, lookup_singleton_eq.
  - rewrite bool_decide_true by (split; [done | set_solver]).
    rewrite lookup_insert_eq.
    by rewrite bool_decide_true by lia.
Qed.

End ReferenceLaws.

(** ** Lemmas on the table *)

Ltac run :=
  unfold login, create_user, daftar_user, get_users, delete_user, update_user,
    get_db, get_user, query_by_username, query_by_id, query_all,
    add_commit, refresh, delete_commit, update_commit, finally, lift,
    SessionLocal, close, stmt, rows, store, raise, set_users, log, set_faults;
  unfold mbind, mret, M_bind, M_ret, bind, ret; simpl.

(** [run] for a world whose engine does not fail. *)
Ltac run_ok H := run; rewrite ?H; simpl.

Lemma find_by_id_Some uid us u :
  find_by_id uid us = Some u → u ∈ us ∧ id u = uid.
Proof.
  unfold find_by_id. intros H. apply find_some in H as [Hin Hb].
  apply bool_decide_eq_true in Hb. by rewrite list_elem_of_In.
Qed.

Lemma find_by_id_None uid us :
  find_by_id uid us = None ↔ uid ∉ id <$> us.
Proof.
  unfold find_by_id. induction us as [|r us IH]; simpl.
  - split; [intros _; apply not_elem_of_nil | done].
  - rewrite not_elem_of_cons. case_bool_decide as Hr.
    + split; [done | intros [Hne _]; congruence].
    + rewrite IH. split; [intros ?; split; [congruence | done] | tauto].
Qed.

Lemma find_by_username_None name us :
  find_by_username name us = None ↔ name ∉ username <$> us.
Proof.
  unfold find_by_username. induction us as [|r us IH]; simpl.
  - split; [intros _; apply not_elem_of_nil | done].
  - rewrite not_elem_of_cons. case_bool_decide as Hr.
    + split; [done | intros [Hne _]; congruence].
    + rewrite IH. split; [intros ?; split; [congruence | done] | tauto].
Qed.

Lemma find_by_username_Some name us u :
  find_by_username name us = Some u → u ∈ us ∧ username u = name.
Proof.
  unfold find_by_username. intros H. apply find_some in H as [Hin Hb].
  apply bool_decide_eq_true in Hb. by rewrite list_elem_of_In.
Qed.

Lemma filter_close_fresh (n : nat) (l : list nat) :
  Forall (λ s, (s < n)%nat) l → filter (λ s, s ≠ n) (l ++ [n])%list = l.
Proof.
  intros Hl. rewrite filter_app.
  replace (filter (λ s, s ≠ n) [n]) with (@nil nat).
  - rewrite app_nil_r. induction Hl as [|x l Hx _ IH]; [done|].
    rewrite filter_cons_True by lia. by rewrite IH.
  - by rewrite filter_cons_False, filter_nil by (intros ?; done).
Qed.


Lemma NoDup_fmap_filter {A B} (f : A → B) (P : A → Prop)
    `{∀ x, Decision (P x)} (l : list A) :
  NoDup (f <$> l) → NoDup (f <$> filter P l).
Proof.
  induction l as [|x l IH]; simpl; [done|].
  rewrite NoDup_cons. intros [Hx Hl].
  destruct (decide (P x)).
  - rewrite filter_cons_True by done. simpl. apply NoDup_cons. split; [|auto].
    intros Hin. apply Hx. apply list_elem_of_fmap in Hin as (y & -> & Hy).
    apply list_elem_of_fmap. exists y. split; [done|].
    by apply list_elem_of_filter in Hy as [_ Hy].
  - rewrite filter_cons_False by done. auto.
Qed.

(** ** Get, delete and update by id *)

Ltac case_faults :=
  repeat match goal with
         | |- context [match ?fs with [] => _ | _ :: _ => _ end] =>
             destruct fs as [|[] ?]; simpl
         end.

Ltac case_fits :=
  repeat match goal with
         | |- context [fits ?z] => destruct (fits z) eqn:?; simpl
         | |- context [fits_opt ?o] => destruct (fits_opt o) eqn:?; simpl
         end.

Lemma get_users_users uid w : users (get_users uid w).2 = users w.
Proof.
  run. case_faults; try done; case_fits; try done;
    by destruct (find_by_id _ _).
Qed.

Lemma delete_user_users uid w :
  users (delete_user uid w).2 = users w ∨
  ∃ u, find_by_id uid (users w) = Some u ∧
       users (delete_user uid w).2 = filter (λ r, id r ≠ id u) (users w).
Proof.
  run. case_faults; try (by left); case_fits; try (by left).
  all: destruct (find_by_id _ _) as [u|]; simpl; case_faults;
    try (by left); right; by exists u.
Qed.

Lemma update_user_users uid inp w :
  users (update_user uid inp w).2 = users w ∨
  ∃ u, find_by_id uid (users w) = Some u ∧
       users (update_user uid inp w).2
       = (λ r, if bool_decide (id r = uid)
               then assign_fields inp r else r) <$> users w.
Proof.
  run. case_faults; try (by left); case_fits; try (by left).
  all: destruct (find_by_id _ _) as [u|] eqn:Hf; simpl; case_faults;
    try (by left); case_fits; try (by left);
    right; exists u; split; try done.
  all: by destruct (find_by_id_Some _ _ _ Hf) as [_ ->].
Qed.


(** C8, as stated, at an absent id that does not fit 64 bits: the query
    is refused with OverflowError, not answered with the 404, and the
    handlers that close by hand leave their session open. *)
Lemma absent_id_overflow :
  ((2 ^ 63) ∉ (id <$> users two_users)) ∧
  (get_users (2 ^ 63) two_users).1 = Raise OverflowError ∧
  (delete_user (2 ^ 63) two_users).1 = Raise OverflowError ∧
  (update_user (2 ^ 63) bobby_input two_users).1 = Raise OverflowError ∧
  (get_users (2 ^ 63) two_users).1 ≠ Raise not_found ∧
  live (get_users (2 ^ 63) two_users).2 = [2%nat].
Proof.
  split; [apply (bool_decide_unpack _); vm_compute; exact I|].
  repeat (split; [vm_compute; reflexivity|]).
  split; [vm_compute; discriminate | vm_compute; reflexivity].
Qed.

(** C8, amended. For an id that no stored row has, DELETE and PUT on
    /users/{id} leave the table as it was; and when the id fits a signed
    64-bit integer (and the engine runs the query), GET, DELETE and PUT
    each raise HTTPException 404. *)
Theorem absent_id_not_found (w : World) (user_id : Z) (input_user : InputUser) :
  user_id ∉ id <$> users w →
  users (delete_user user_id w).2 = users w ∧
  users (update_user user_id input_user w).2 = users w ∧
  (faults w = [] → fits user_id = true →
   (get_users user_id w).1 = Raise not_found ∧
   (delete_user user_id w).1 = Raise not_found ∧
   (update_user user_id input_user w).1 = Raise not_found).
Proof.
  intros Habs. apply find_by_id_None in Habs.
  split; [|split].
  - destruct (delete_user_users user_id w) as [->|(u & Hu & _)];
      [done | congruence].
  - destruct (update_user_users user_id input_user w) as [->|(u & Hu & _)];
      [done | congruence].
  - intros Hok Hid. repeat split; run_ok Hok; rewrite Hid; simpl;
      by rewrite Habs.
Qed.

Lemma absent_id_not_found_witness :
  users (delete_user 7 two_users).2 = [bob_row; alice_row] ∧
  users (update_user 7 bobby_input two_users).2 = [bob_row; alice_row] ∧
  (faults two_users = [] → fits 7 = true →
   (get_users 7 two_users).1
   = Raise (HTTPException 404 "User tidak ditemukan." []) ∧
   (delete_user 7 two_users).1 = Raise not_found ∧
   (update_user 7 bobby_input two_users).1 = Raise not_found).
Proof.
  apply (absent_id_not_found two_users 7 bobby_input).
  apply (bool_decide_unpack _). vm_compute. exact I.
Defined.






(** ** Sessions *)

Lemma filter_close_absent (n : nat) (l : list nat) :
  Forall (λ s, (s < n)%nat) l → filter (λ s, s ≠ n) l = l.
Proof.
  induction 1 as [|x l Hx _ IH]; [done|].
  rewrite filter_cons_True by lia. by rewrite IH.
Qed.

Ltac scoped_with body :=
  exists body; split;
  [ rewrite <- ?app_assoc; reflexivity
  | repeat (apply List.Forall_cons; [first [by left | by right] |]);
    apply List.Forall_nil ].

Ltac finish_scoped :=
  simpl; split; [done|]; split;
  [ rewrite ?filter_close_fresh by done;
    rewrite ?filter_close_absent by done; done
  | match goal with
    | |- context [Acquire ?s] =>
        first [ scoped_with (@nil event)
              | scoped_with [Stmt s]
              | scoped_with [Stmt s; Stmt s]
              | scoped_with [Stmt s; Release s]
              | scoped_with [Stmt s; Stmt s; Release s] ]
    end ].

Section Sessions.
Context {C : CryptContext} {J : Jose}.

(** The two handlers behind [get_db] close their session whatever the
    engine does. *)
Lemma login_scoped now user w : session_ok w → scoped (login now user) w.
Proof.
  intros Hok. unfold scoped, session_ok in *. run.
  destruct (faults w) as [|[] fs]; simpl; try finish_scoped.
  all: destruct (find_by_username _ _) as [u|]; simpl;
    [destruct (verify_password _ _) as [[]|]; simpl|]; finish_scoped.
Qed.

Lemma create_user_scoped salt inp w :
  session_ok w → scoped (create_user salt inp) w.
Proof.
  intros Hok. unfold scoped, session_ok in *. run.
  destruct (get_password_hash _ _) as [h|e]; simpl; [|finish_scoped].
  case_faults; try finish_scoped.
  all: case_fits; try finish_scoped.
  all: destruct (find_by_username _ _) as [u|]; simpl; try finish_scoped.
  all: case_faults; finish_scoped.
Qed.

(** The four handlers that close by hand do so when the engine does not
    fail and the integers of the request fit 64 bits. *)
Lemma daftar_user_scoped w :
  faults w = [] → session_ok w → scoped daftar_user w.
Proof.
  intros Hf Hok. unfold scoped, session_ok in *. run_ok Hf. finish_scoped.
Qed.

Lemma get_users_scoped uid w :
  faults w = [] → fits uid = true → session_ok w → scoped (get_users uid) w.
Proof.
  intros Hf Hid Hok. unfold scoped, session_ok in *. run_ok Hf.
  rewrite Hid. simpl.
  destruct (find_by_id _ _) as [u|]; simpl; finish_scoped.
Qed.

Lemma delete_user_scoped uid w :
  faults w = [] → fits uid = true → session_ok w →
  scoped (delete_user uid) w.
Proof.
  intros Hf Hid Hok. unfold scoped, session_ok in *. run_ok Hf.
  rewrite Hid. simpl.
  destruct (find_by_id _ _) as [u|]; simpl; rewrite ?Hf; finish_scoped.
Qed.

Lemma update_user_scoped uid inp w :
  faults w = [] → fits uid = true → fits_opt (in_jenis_kelamin inp) = true →
  session_ok w → scoped (update_user uid inp) w.
Proof.
  intros Hf Hid Hjk Hok. unfold scoped, session_ok in *. run_ok Hf.
  rewrite Hid. simpl.
  destruct (find_by_id _ _) as [u|]; simpl; rewrite ?Hf, ?Hjk; finish_scoped.
Qed.

End Sessions.

(** With an engine that does not fail and request integers that fit 64
    bits, each of the six handlers takes one new session as its first
    step, runs its statements on it, closes it as its last step on each of
    its exits (a returned value, 401, 404, IntegrityError, an error of the
    hasher) and leaves the live sessions as it found them. *)
Lemma handlers_scoped_engine_ok {C : CryptContext} {J : Jose}
    (w : World) (now : Z) (user : UserLogin) (salt : string)
    (input_user : InputUser) (user_id : Z) :
  faults w = [] →
  fits user_id = true →
  fits_opt (in_jenis_kelamin input_user) = true →
  session_ok w →
  scoped (login now user) w ∧
  scoped (create_user salt input_user) w ∧
  scoped daftar_user w ∧
  scoped (get_users user_id) w ∧
  scoped (delete_user user_id) w ∧
  scoped (update_user user_id input_user) w.
Proof.
  intros Hf Hid Hjk Hok.
  split; [by apply login_scoped|].
  split; [by apply create_user_scoped|].
  split; [by apply daftar_user_scoped|].
  split; [by apply get_users_scoped|].
  split; [by apply delete_user_scoped|].
  by apply update_user_scoped.
Qed.

(** C9 at an engine error.  GET /users/daftar and GET /users/{id} whose
    query fails, DELETE and PUT /users/{id} whose commit fails: the
    exception leaves the handler before its db.close(), and the session
    stays live.  POST /login and POST /users on the same failing engine
    close theirs, through the finally of [get_db]. *)
Theorem manual_close_skipped_on_engine_error :
  ((daftar_user query_fails).1 = Raise OperationalError ∧
   live (daftar_user query_fails).2 = [2%nat]) ∧
  ((get_users 1 query_fails).1 = Raise OperationalError ∧
   live (get_users 1 query_fails).2 = [2%nat]) ∧
  ((delete_user 1 commit_fails).1 = Raise OperationalError ∧
   live (delete_user 1 commit_fails).2 = [2%nat]) ∧
  ((update_user 1 bobby_input commit_fails).1 = Raise OperationalError ∧
   live (update_user 1 bobby_input commit_fails).2 = [2%nat]) ∧
  ((login (C:=Reference.toy_context) (J:=Reference.sym_jose) 0
          (mkUserLogin "bob" "pw123") query_fails).1
   = Raise OperationalError ∧
   live (login (C:=Reference.toy_context) (J:=Reference.sym_jose) 0
               (mkUserLogin "bob" "pw123") query_fails).2 = []) ∧
  ((create_user (C:=Reference.toy_context) "salt" bobby_input query_fails).1
   = Raise OperationalError ∧
   live (create_user (C:=Reference.toy_context) "salt" bobby_input
                     query_fails).2 = []) ∧
  ¬ scoped daftar_user query_fails.
Proof.
  repeat (split; [split; vm_compute; reflexivity|]).
  unfold scoped. intros (_ & Hlive & _). vm_compute in Hlive. discriminate.
Qed.

(** ** Uniqueness of usernames *)

Section Uniqueness.
Context {C : CryptContext} {J : Jose}.

Lemma login_users now user w : users (login now user w).2 = users w.
Proof.
  run. case_faults; try done.
  all: destruct (find_by_username _ _) as [u|]; simpl;
    [destruct (verify_password _ _) as [[]|]; simpl|]; done.
Qed.

Lemma daftar_user_users w : users (daftar_user w).2 = users w.
Proof. run. by case_faults. Qed.

Lemma create_user_users salt inp w :
  users (create_user salt inp w).2 = users w ∨
  ∃ h, get_password_hash salt (in_password inp) = Ok h ∧
       find_by_username (in_username inp) (users w) = None ∧
       users (create_user salt inp w).2
       = (users w ++
          [mkUser (next_id (users w)) (in_username inp) h (in_nama inp)
                  (in_jenis_kelamin inp) (in_tanggal_lahir inp)])%list.
Proof.
  run. destruct (get_password_hash _ _) as [h|e] eqn:Hh; simpl; [|by left].
  case_faults; try (by left).
  all: case_fits; try (by left).
  all: destruct (find_by_username _ _) eqn:Hf; simpl; [by left|].
  all: case_faults; right; by exists h.
Qed.



End Uniqueness.



(** ** Login *)



(** ** Tokens *)

Lemma issued_claims_sub (u : string) (v : value) :
  getitem (<["exp" := v]> {["sub" := VStr u]}) "sub" = Ok (VStr u).
Proof.
  unfold getitem. by rewrite lookup_insert_ne, lookup_singleton_eq.
Qed.

(** C2. With a [jose.jwt] that meets [JoseLaws], the token that
    [create_access_token] makes for subject [u] at time [now], given to
    [verify_token] at any time up to its expiry (at [now] itself for one),
    is accepted and yields [u]. *)
Theorem issued_token_decodes {J : Jose} (u : string) (now now' : Z)
    (db : nat) (credentials_exception : exn) :
  JoseLaws J →
  now' ≤ now + minutes_30 →
  verify_token now' db (create_access_token now {["sub" := VStr u]})
               credentials_exception
  = Ok (VStr u).
Proof.
  intros HL Hle. unfold verify_token, create_access_token, to_encode.
  rewrite decode_before_exp by done.
  unfold mbind, result_bind. by rewrite issued_claims_sub.
Qed.

Lemma issued_token_decodes_witness :
  verify_token (J:=Reference.sym_jose) 1700000000 0
    (create_access_token 1700000000 {["sub" := VStr "bob"]}) unauthorized
  = Ok (VStr "bob").
Proof.
  apply (issued_token_decodes (J:=Reference.sym_jose) "bob"
           1700000000 1700000000 0%nat unauthorized ReferenceLaws.sym_laws).
  vm_compute. discriminate.
Defined.

(** C3. The claims that [create_access_token] signs carry under "exp" the
    time of issue plus 30 minutes; with a [jose.jwt] that meets [JoseLaws]
    the decoded token shows that time as its "exp", and [verify_token]
    after that time raises ExpiredSignatureError, a JWTError. *)
Theorem issued_token_expiry {J : Jose} (u : string) (now : Z) (db : nat)
    (credentials_exception : exn) :
  JoseLaws J →
  let tok := create_access_token now {["sub" := VStr u]} in
  (∀ data, to_encode now data !! "exp" = Some (VDatetime (now + 30 * 60))) ∧
  (∀ now', now' ≤ now + 30 * 60 →
     ∃ p, jwt_decode now' tok "secret-key" ["HS256"] = Ok p ∧
          p !! "exp" = Some (VInt (now + 30 * 60))) ∧
  (∀ now', now + 30 * 60 < now' →
     verify_token now' db tok credentials_exception
     = Raise (JWTError ExpiredSignatureError)).
Proof.
  intros HL tok. subst tok. unfold create_access_token, to_encode, minutes_30.
  split; [|split].
  - intros data. apply lookup_insert_eq.
  - intros now' Hle. eexists. split; [by apply decode_before_exp|].
    apply lookup_insert_eq.
  - intros now' Hlt. unfold verify_token.
    by rewrite decode_after_exp.
Qed.

Lemma issued_token_expiry_witness :
  let tok := create_access_token (J:=Reference.sym_jose) 1700000000
               {["sub" := VStr "bob"]} in
  (∀ data, to_encode 1700000000 data !! "exp"
           = Some (VDatetime (1700000000 + 30 * 60))) ∧
  (∀ now', now' ≤ 1700000000 + 30 * 60 →
     ∃ p, jwt_decode now' tok "secret-key" ["HS256"] = Ok p ∧
          p !! "exp" = Some (VInt (1700000000 + 30 * 60))) ∧
  (∀ now', 1700000000 + 30 * 60 < now' →
     verify_token now' 0 tok unauthorized
     = Raise (JWTError ExpiredSignatureError)).
Proof.
  exact (issued_token_expiry (J:=Reference.sym_jose) "bob" 1700000000 0%nat
           unauthorized ReferenceLaws.sym_laws).
Defined.

(** A verified token without "sub": [verify_token] stops at the indexing. *)
Lemma verify_token_without_sub {J : Jose} (now : Z) (db : nat) (tok : token)
    (payload : gmap string value) (credentials_exception : exn) :
  jwt_decode now tok "secret-key" ["HS256"] = Ok payload →
  payload !! "sub" = None →
  verify_token now db tok credentials_exception = Raise (KeyError "sub").
Proof.
  intros Hd Hs. unfold verify_token. rewrite Hd.
  unfold mbind, result_bind, getitem. by rewrite Hs.
Qed.

(** C4. [verify_token] on a token that verifies and whose payload has no
    "sub": the credentials exception is not what comes out; KeyError is. *)
Theorem verify_token_missing_sub_KeyError :
  jwt_decode (Jose:=Reference.sym_jose) 1700000000 token_without_sub
             "secret-key" ["HS256"]
  = Ok {["exp" := VInt 1700001800]} ∧
  ({["exp" := VInt 1700001800]} : gmap string value) !! "sub" = None ∧
  verify_token (J:=Reference.sym_jose) 1700000000 0 token_without_sub
               unauthorized
  = Raise (KeyError "sub") ∧
  verify_token (J:=Reference.sym_jose) 1700000000 0 token_without_sub
               unauthorized
  ≠ Raise unauthorized.
Proof.
  assert (Hd : jwt_decode (Jose:=Reference.sym_jose) 1700000000
                 token_without_sub "secret-key" ["HS256"]
               = Ok {["exp" := VInt 1700001800]}) by (vm_compute; reflexivity).
  split; [exact Hd|]. split; [reflexivity|].
  rewrite (verify_token_without_sub _ _ _ _ _ Hd eq_refl).
  split; [reflexivity | discriminate].
Qed.

(** ** Password hashing *)

(** [verify_password] catches nothing: on a stored string that the context
    cannot identify as a hash it does not answer false, it raises. *)
Lemma verify_password_raises_on_unidentified :
  verify_password (C:=Reference.toy_context) "pw123" "not-a-hash"
  = Raise UnknownHashError ∧
  ¬ ∃ b, verify_password (C:=Reference.toy_context) "pw123" "not-a-hash"
         = Ok b.
Proof.
  split; [reflexivity|]. intros [b Hb]. vm_compute in Hb. discriminate.
Qed.

(** ** The service run end to end *)

Section EndToEnd.
Import Reference.

Example create_bob_assigns_id :
  (create_user "salt" bob_input init_world).1 = Ok bob_row.
Proof. reflexivity. Qed.

Example login_bob_accepted :
  ∃ resp, (login 1700000000 (mkUserLogin "bob" "pw123") after_bob).1 = Ok resp ∧
          token_type resp = "bearer" ∧
          verify_token 1700000060 0 (access_token resp) unauthorized
          = Ok (VStr "bob").
Proof. eexists. split; [reflexivity|]. split; vm_compute; reflexivity. Qed.

Example login_bob_wrong_password :
  (login 1700000000 (mkUserLogin "bob" "wrong") after_bob).1 = Raise unauthorized.
Proof. reflexivity. Qed.

Example daftar_lists_bob : (daftar_user after_bob).1 = Ok [bob_row].
Proof. reflexivity. Qed.

Example delete_then_get :
  (delete_user 1 after_bob).1 = Ok "User dengan ID 1 berhasil dihapus." ∧
  (get_users 1 (delete_user 1 after_bob).2).1 = Raise not_found.
Proof. split; vm_compute; reflexivity. Qed.

Example second_alice_refused :
  (create_user "salt" alice_input after_alice).1 = Raise IntegrityError.
Proof. reflexivity. Qed.

End EndToEnd.

(** * Further properties of the handlers *)

(** ** Facts used below *)

Lemma next_id_above (us : list User) (r : User) : r ∈ us → id r < next_id us.
Proof.
  unfold next_id. induction 1 as [r us|r r' us _ IH]; simpl; lia.
Qed.

Lemma next_id_positive (us : list User) : 1 ≤ next_id us.
Proof.
  unfold next_id. assert (0 ≤ foldr (λ u m, Z.max (id u) m) 0 us); [|lia].
  induction us as [|r us IH]; simpl; lia.
Qed.

Lemma next_id_fresh (us : list User) : next_id us ∉ id <$> us.
Proof.
  intros (r & Hr & Hin)%list_elem_of_fmap.
  apply next_id_above in Hin. lia.
Qed.

Lemma find_by_id_app uid us row :
  find_by_id uid (us ++ [row])
  = match find_by_id uid us with
    | Some u => Some u
    | None => if bool_decide (id row = uid) then Some row else None
    end.
Proof.
  unfold find_by_id. induction us as [|r us IH]; simpl; [done|].
  by destruct (bool_decide (id r = uid)).
Qed.

Lemma find_by_username_app name us row :
  find_by_username name (us ++ [row])
  = match find_by_username name us with
    | Some u => Some u
    | None => if bool_decide (username row = name) then Some row else None
    end.
Proof.
  unfold find_by_username. induction us as [|r us IH]; simpl; [done|].
  by destruct (bool_decide (username r = name)).
Qed.

Lemma find_by_id_filter_other uid gone us :
  uid ≠ gone →
  find_by_id uid (filter (λ r, id r ≠ gone) us) = find_by_id uid us.
Proof.
  intros Hne. unfold find_by_id. induction us as [|r us IH]; simpl; [done|].
  destruct (decide (id r = gone)) as [Hr|Hr].
  - rewrite filter_cons_False by (intros ?; done).
    rewrite bool_decide_false by congruence. done.
  - rewrite filter_cons_True by done. simpl. by rewrite IH.
Qed.

Lemma find_by_id_filter_gone uid us :
  find_by_id uid (filter (λ r, id r ≠ uid) us) = None.
Proof.
  apply find_by_id_None. intros (r & Hr & Hin)%list_elem_of_fmap.
  apply list_elem_of_filter in Hin as [Hne _]. done.
Qed.

Section Runs.
Context {C : CryptContext} {J : Jose}.


(** A POST /users that returns has hashed the password, bound
    jenis_kelamin, found the username free and stored the row it returns,
    whatever the engine does afterwards. *)
Lemma create_user_returns salt inp w row :
  (create_user salt inp w).1 = Ok row →
  ∃ h, get_password_hash salt (in_password inp) = Ok h ∧
       fits_opt (in_jenis_kelamin inp) = true ∧
       find_by_username (in_username inp) (users w) = None ∧
       row = mkUser (next_id (users w)) (in_username inp) h (in_nama inp)
                    (in_jenis_kelamin inp) (in_tanggal_lahir inp) ∧
       users (create_user salt inp w).2 = (users w ++ [row])%list.
Proof.
  run. destruct (get_password_hash _ _) as [h|e] eqn:Hh; simpl; [|done].
  case_faults; try done.
  all: case_fits; try done.
  all: destruct (find_by_username _ _) eqn:Hf; simpl; [done|].
  all: case_faults; try done.
  all: intros [= <-]; by exists h.
Qed.

Lemma get_users_run uid w :
  faults w = [] →
  (get_users uid w).1
  = if fits uid then
      match find_by_id uid (users w) with
      | Some u => Ok u
      | None => Raise not_found
      end
    else Raise OverflowError.
Proof.
  intros Hok. run_ok Hok. case_fits; [|done]. by destruct (find_by_id _ _).
Qed.

Lemma delete_user_run uid w u :
  faults w = [] →
  fits uid = true →
  find_by_id uid (users w) = Some u →
  (delete_user uid w).1
  = Ok ("User dengan ID " +:+ pretty uid +:+ " berhasil dihapus.") ∧
  users (delete_user uid w).2 = filter (λ r, id r ≠ uid) (users w) ∧
  faults (delete_user uid w).2 = [].
Proof.
  intros Hok Hid Hf. destruct (find_by_id_Some _ _ _ Hf) as [_ <-].
  run_ok Hok. rewrite Hid. simpl. rewrite Hf. simpl. by rewrite ?Hok.
Qed.


Lemma login_run now user w :
  faults w = [] →
  (login now user w).1
  = match find_by_username (login_username user) (users w) with
    | None => Raise unauthorized
    | Some u =>
        match verify_password (login_password user) (hashed_password u) with
        | Ok true =>
            Ok (mkLoginResponse
                  (create_access_token now
                     {["sub" := VStr (login_username user)]}) "bearer")
        | Ok false => Raise unauthorized
        | Raise e => Raise e
        end
    end.
Proof.
  intros Hok. run_ok Hok.
  destruct (find_by_username _ _) as [u|]; simpl; [|done].
  by destruct (verify_password _ _) as [[]|].
Qed.

Lemma serve_engine_ok r w : faults w = [] → faults (serve r w) = [].
Proof.
  intros Hok. destruct r; simpl; run_ok Hok; try done.
  - destruct (find_by_username _ _) as [u|]; simpl; [|done].
    by destruct (verify_password _ _) as [[]|].
  - destruct (get_password_hash _ _); simpl; [|done].
    rewrite ?Hok. simpl. case_fits; [|done].
    destruct (find_by_username _ _); simpl; by rewrite ?Hok.
  - case_fits; [|done]. by destruct (find_by_id _ _).
  - case_fits; [|done]. destruct (find_by_id _ _); simpl; by rewrite ?Hok.
  - case_fits; try done.
    all: destruct (find_by_id _ _); simpl; by rewrite ?Hok.
Qed.
End Runs.

Lemma daftar_user_run w : faults w = [] → (daftar_user w).1 = Ok (users w).
Proof. intros Hok. by run_ok Hok. Qed.

(** ** Creating a user *)



Section Keys.
Context {C : CryptContext} {J : Jose}.

Lemma serve_ids_unique r w :
  NoDup (id <$> users w) → NoDup (id <$> users (serve r w)).
Proof.
  intros Hnd. destruct r; simpl.
  - by rewrite login_users.
  - destruct (create_user_users salt input_user w) as [->|(h & _ & _ & ->)];
      [done|].
    rewrite fmap_app. apply NoDup_app. split; [done|]. split.
    + intros x Hx Hx'. simpl in Hx'.
      apply list_elem_of_singleton in Hx'. subst x.
      by apply next_id_fresh in Hx.
    + apply NoDup_singleton.
  - by rewrite daftar_user_users.
  - by rewrite get_users_users.
  - destruct (delete_user_users user_id w) as [->|(u & _ & ->)]; [done|].
    by apply NoDup_fmap_filter.
  - destruct (update_user_users user_id input_user w) as [->|(u & _ & ->)];
      [done|].
    rewrite <- list_fmap_compose.
    erewrite list_fmap_ext; [exact Hnd|].
    intros i r _. simpl. by case_bool_decide.
Qed.
End Keys.

(** X2. In every world the service can reach from an empty table, whatever
    the engine did on the way, no two rows have the same id, so that
    /users/{id} names at most one row. *)
Theorem ids_unique {C : CryptContext} {J : Jose} (w : World) :
  reachable w → NoDup (id <$> users w).
Proof.
  induction 1 as [|r w _ IH|fs w _ IH];
    [apply NoDup_nil_2 | by apply serve_ids_unique | done].
Qed.

Lemma ids_unique_witness :
  NoDup (id <$> users
           (serve (C:=Reference.toy_context) (J:=Reference.sym_jose)
                  (PostUsers "salt" bob_input) after_alice)).
Proof.
  apply (ids_unique (C:=Reference.toy_context) (J:=Reference.sym_jose)).
  apply reach_serve, reach_serve, reach_init.
Defined.

(** X3. A user just created can be read back: when POST /users has
    returned a row, the row's id fits 64 bits and the engine does not fail
    afterwards, GET /users/{id} with that id gives the row, and
    GET /users/daftar gives the old rows followed by it. *)
Theorem created_user_is_read_back {C : CryptContext} (salt : string)
    (input_user : InputUser) (w : World) (row : User) :
  (create_user salt input_user w).1 = Ok row →
  faults (create_user salt input_user w).2 = [] →
  fits (id row) = true →
  (get_users (id row) (create_user salt input_user w).2).1 = Ok row ∧
  (daftar_user (create_user salt input_user w).2).1
  = Ok (users w ++ [row])%list.
Proof.
  intros Hr Hok Hid.
  destruct (create_user_returns salt input_user w row Hr)
    as (h & _ & _ & _ & Hrow & Hu).
  split.
  - rewrite get_users_run by done. rewrite Hid, Hu, find_by_id_app.
    assert (Hn : find_by_id (id row) (users w) = None).
    { apply find_by_id_None. rewrite Hrow. simpl. apply next_id_fresh. }
    rewrite Hn. by rewrite bool_decide_true.
  - rewrite daftar_user_run by done. by rewrite Hu.
Qed.

Lemma created_user_is_read_back_witness :
  (get_users 3
     (create_user (C:=Reference.toy_context) "nacl" carol_input
                  two_users).2).1 = Ok carol_row ∧
  (daftar_user
     (create_user (C:=Reference.toy_context) "nacl" carol_input
                  two_users).2).1 = Ok [bob_row; alice_row; carol_row].
Proof.
  exact (created_user_is_read_back (C:=Reference.toy_context) "nacl"
           carol_input two_users carol_row eq_refl eq_refl eq_refl).
Defined.

(** ** Logging in *)

(** X4. POST /login with the username of a stored row and a password that
    the row's hash accepts, the engine not failing: the handler returns a
    token of type "bearer" and leaves the table as it was; with a
    [jose.jwt] that meets [JoseLaws], [verify_token] gives the request's
    username for that token until 30 minutes after the login, and raises
    ExpiredSignatureError after that. *)
Theorem login_issues_token {C : CryptContext} {J : Jose} (now : Z)
    (user : UserLogin) (w : World) (u : User) (db : nat)
    (credentials_exception : exn) :
  JoseLaws J →
  faults w = [] →
  find_by_username (login_username user) (users w) = Some u →
  verify_password (login_password user) (hashed_password u) = Ok true →
  ∃ resp,
    (login now user w).1 = Ok resp ∧
    token_type resp = "bearer" ∧
    users (login now user w).2 = users w ∧
    (∀ now', now' ≤ now + 30 * 60 →
       verify_token now' db (access_token resp) credentials_exception
       = Ok (VStr (login_username user))) ∧
    (∀ now', now + 30 * 60 < now' →
       verify_token now' db (access_token resp) credentials_exception
       = Raise (JWTError ExpiredSignatureError)).
Proof.
  intros HL Hok Hf Hv. eexists. split.
  { rewrite login_run by done. by rewrite Hf, Hv. }
  split; [done|]. split; [apply login_users|]. simpl.
  unfold verify_token, create_access_token, to_encode, minutes_30. split.
  - intros now' Hle. rewrite decode_before_exp by done.
    unfold mbind, result_bind. by rewrite issued_claims_sub.
  - intros now' Hlt. by rewrite decode_after_exp.
Qed.

Lemma login_issues_token_witness :
  let login' := login (C:=Reference.toy_context) (J:=Reference.sym_jose) in
  ∃ resp,
    (login' 1700000000 (mkUserLogin "bob" "pw123") two_users).1 = Ok resp ∧
    token_type resp = "bearer" ∧
    users (login' 1700000000 (mkUserLogin "bob" "pw123") two_users).2
    = users two_users ∧
    (∀ now', now' ≤ 1700000000 + 30 * 60 →
       verify_token now' 0 (access_token resp) unauthorized
       = Ok (VStr "bob")) ∧
    (∀ now', 1700000000 + 30 * 60 < now' →
       verify_token now' 0 (access_token resp) unauthorized
       = Raise (JWTError ExpiredSignatureError)).
Proof.
  apply (login_issues_token (C:=Reference.toy_context)
           (J:=Reference.sym_jose) 1700000000 (mkUserLogin "bob" "pw123")
           two_users bob_row 0%nat unauthorized ReferenceLaws.sym_laws
           eq_refl eq_refl).
  vm_compute. reflexivity.
Defined.

(** X5. Sign up, then log in: when POST /users has returned a row and the
    engine does not fail afterwards, POST /login with the same username
    and password is accepted, for a [pwd_context] whose hashes accept the
    password they were made from; the token is the one
    [create_access_token] makes for that username. *)
Theorem created_user_can_login {C : CryptContext} {J : Jose}
    (salt : string) (input_user : InputUser) (now : Z) (w : World)
    (row : User) :
  CryptLaws C →
  (create_user salt input_user w).1 = Ok row →
  faults (create_user salt input_user w).2 = [] →
  (login now (mkUserLogin (in_username input_user) (in_password input_user))
         (create_user salt input_user w).2).1
  = Ok (mkLoginResponse
          (create_access_token now
             {["sub" := VStr (in_username input_user)]}) "bearer").
Proof.
  intros HL Hr Hok.
  destruct (create_user_returns salt input_user w row Hr)
    as (h & Hh & _ & Hfresh & Hrow & Hu).
  rewrite login_run by done. simpl.
  rewrite Hu, find_by_username_app, Hfresh, Hrow. simpl.
  rewrite bool_decide_true by done. simpl.
  unfold verify_password. by rewrite (verify_own_hash _ _ _ Hh).
Qed.

Lemma created_user_can_login_witness :
  (login (C:=Reference.toy_context) (J:=Reference.sym_jose) 1700000000
         (mkUserLogin "carol" "hunter2")
         (create_user (C:=Reference.toy_context) "nacl" carol_input
                      two_users).2).1
  = Ok (mkLoginResponse
          (create_access_token (J:=Reference.sym_jose) 1700000000
             {["sub" := VStr "carol"]}) "bearer").
Proof.
  exact (created_user_can_login (C:=Reference.toy_context)
           (J:=Reference.sym_jose) "nacl" carol_input 1700000000 two_users
           carol_row ReferenceLaws.toy_laws eq_refl eq_refl).
Defined.

(** ** Deleting and updating *)

Lemma delete_user_result uid w :
  faults w = [] →
  (delete_user uid w).1
  = if fits uid then
      match find_by_id uid (users w) with
      | Some _ =>
          Ok ("User dengan ID " +:+ pretty uid +:+ " berhasil dihapus.")
      | None => Raise not_found
      end
    else Raise OverflowError.
Proof.
  intros Hok. run_ok Hok. case_fits; [|done].
  destruct (find_by_id _ _); simpl; by rewrite ?Hok.
Qed.

(** X6. DELETE /users/{id} for a stored id (an integer of 64 bits, as
    every id that SQLite stores), the engine not failing: the handler
    returns its message; afterwards GET and a second DELETE on the id raise
    404; GET on any other id answers as it did before; the rows left are
    the old rows with another id, in their old order. *)
Theorem delete_user_removes_row (user_id : Z) (w : World) :
  faults w = [] →
  fits user_id = true →
  user_id ∈ id <$> users w →
  let w' := (delete_user user_id w).2 in
  (delete_user user_id w).1
  = Ok ("User dengan ID " +:+ pretty user_id +:+ " berhasil dihapus.") ∧
  users w' = filter (λ r, id r ≠ user_id) (users w) ∧
  (get_users user_id w').1 = Raise not_found ∧
  (delete_user user_id w').1 = Raise not_found ∧
  (∀ other, other ≠ user_id →
     (get_users other w').1 = (get_users other w).1).
Proof.
  intros Hok Hid Hin w'. subst w'.
  destruct (find_by_id user_id (users w)) as [u|] eqn:Hf;
    [| by apply find_by_id_None in Hf].
  destruct (delete_user_run user_id w u Hok Hid Hf) as (Hr & Hu & Hf').
  split; [exact Hr|]. split; [exact Hu|].
  assert (Hgone : find_by_id user_id (users (delete_user user_id w).2) = None)
    by (rewrite Hu; apply find_by_id_filter_gone).
  split; [|split].
  - rewrite get_users_run by done. by rewrite Hid, Hgone.
  - rewrite delete_user_result by done. by rewrite Hid, Hgone.
  - intros other Hne. rewrite !get_users_run by done.
    by rewrite Hu, find_by_id_filter_other.
Qed.

Lemma delete_user_removes_row_witness :
  (delete_user 1 two_users).1 = Ok "User dengan ID 1 berhasil dihapus." ∧
  users (delete_user 1 two_users).2 = [alice_row] ∧
  (get_users 1 (delete_user 1 two_users).2).1 = Raise not_found ∧
  (delete_user 1 (delete_user 1 two_users).2).1 = Raise not_found ∧
  (∀ other, other ≠ 1 →
     (get_users other (delete_user 1 two_users).2).1
     = (get_users other two_users).1).
Proof.
  apply (delete_user_removes_row 1 two_users eq_refl eq_refl).
  apply (bool_decide_unpack _). vm_compute. exact I.
Defined.

Lemma find_by_username_filter_gone name us u :
  NoDup (username <$> us) →
  find_by_username name us = Some u →
  find_by_username name (filter (λ r, id r ≠ id u) us) = None.
Proof.
  intros Hnd Hf. apply find_by_username_None.
  intros (r & Hr & Hin)%list_elem_of_fmap.
  apply list_elem_of_filter in Hin as [Hne Hin].
  apply find_by_username_Some in Hf as [Hu Hname].
  apply Hne. f_equal.
  apply list_elem_of_lookup in Hin as [i Hi].
  apply list_elem_of_lookup in Hu as [j Hj].
  assert (i = j); [|congruence].
  apply (NoDup_lookup _ i j name Hnd).
  - rewrite list_lookup_fmap, Hi. simpl. congruence.
  - rewrite list_lookup_fmap, Hj. simpl. congruence.
Qed.

(** X7. A deleted user cannot log in: in a table without duplicate
    usernames (every reachable one), after DELETE /users/{id} of the row
    that has a username, its id an integer of 64 bits, POST /login with
    that username raises 401, whatever the password (the engine not
    failing). *)
Theorem deleted_user_cannot_login {C : CryptContext} {J : Jose}
    (now : Z) (user : UserLogin) (w : World) (u : User) :
  faults w = [] →
  fits (id u) = true →
  NoDup (username <$> users w) →
  find_by_username (login_username user) (users w) = Some u →
  (login now user (delete_user (id u) w).2).1 = Raise unauthorized.
Proof.
  intros Hok Hfit Hnd Hf.
  assert (Hid : find_by_id (id u) (users w) ≠ None).
  { intros Hn. apply find_by_id_None in Hn. apply Hn.
    apply list_elem_of_fmap. exists u. split; [done|].
    by apply find_by_username_Some in Hf as [? _]. }
  destruct (find_by_id (id u) (users w)) as [u'|] eqn:Hf'; [|done].
  destruct (delete_user_run (id u) w u' Hok Hfit Hf') as (_ & Hu & Hf'').
  rewrite login_run by done.
  by rewrite Hu, (find_by_username_filter_gone _ _ _ Hnd Hf).
Qed.

Lemma deleted_user_cannot_login_witness :
  (login (C:=Reference.toy_context) (J:=Reference.sym_jose) 1700000000
         (mkUserLogin "bob" "pw123") (delete_user 1 two_users).2).1
  = Raise unauthorized.
Proof.
  apply (deleted_user_cannot_login (C:=Reference.toy_context)
           (J:=Reference.sym_jose) 1700000000 (mkUserLogin "bob" "pw123")
           two_users bob_row eq_refl eq_refl).
  - apply (bool_decide_unpack _). vm_compute. exact I.
  - reflexivity.
Defined.


Lemma find_by_username_assign name uid inp us :
  find_by_username name ((λ r, if bool_decide (id r = uid)
                               then assign_fields inp r else r) <$> us)
  = (λ r, if bool_decide (id r = uid) then assign_fields inp r else r)
      <$> find_by_username name us.
Proof.
  unfold find_by_username. induction us as [|r us IH]; simpl; [done|].
  assert (Hn : username (if bool_decide (id r = uid)
                         then assign_fields inp r else r) = username r)
    by (by case_bool_decide).
  rewrite Hn. by destruct (bool_decide (username r = name)).
Qed.



(** X9. PUT /users/{id} changes nobody's login: after it, POST /login
    answers every request as it did before, the body's username and
    password notwithstanding (the engine not failing). *)
Theorem update_user_keeps_logins {C : CryptContext} {J : Jose}
    (user_id : Z) (input_user : InputUser) (now : Z) (user : UserLogin)
    (w : World) :
  faults w = [] →
  (login now user (update_user user_id input_user w).2).1
  = (login now user w).1.
Proof.
  intros Hok.
  assert (Hf' : faults (update_user user_id input_user w).2 = [])
    by apply (serve_engine_ok (PutUser user_id input_user) w Hok).
  rewrite !login_run by done.
  destruct (update_user_users user_id input_user w) as [->|(u & _ & ->)];
    [done|].
  rewrite find_by_username_assign.
  destruct (find_by_username _ _) as [r|]; simpl; [|done].
  by case_bool_decide.
Qed.

Lemma update_user_keeps_logins_witness :
  (login (C:=Reference.toy_context) (J:=Reference.sym_jose) 1700000000
         (mkUserLogin "bob" "pw123") (update_user 1 bobby_input two_users).2).1
  = (login (C:=Reference.toy_context) (J:=Reference.sym_jose) 1700000000
           (mkUserLogin "bob" "pw123") two_users).1.
Proof.
  exact (update_user_keeps_logins (C:=Reference.toy_context)
           (J:=Reference.sym_jose) 1 bobby_input 1700000000
           (mkUserLogin "bob" "pw123") two_users eq_refl).
Defined.

(** ** What the handlers leave alone *)

(** X10. POST /login, GET /users/daftar and GET /users/{id} never change
    the table, whatever they return or raise and whatever the engine does. *)
Theorem read_handlers_keep_table {C : CryptContext} {J : Jose}
    (now : Z) (user : UserLogin) (user_id : Z) (w : World) :
  users (login now user w).2 = users w ∧
  users (daftar_user w).2 = users w ∧
  users (get_users user_id w).2 = users w.
Proof.
  split; [apply login_users|]. split;
    [apply daftar_user_users | apply get_users_users].
Qed.

(** POST /users whose refresh fails: the commit before it stands, so the
    handler raises the engine's error and the row is stored. *)
Example create_user_refresh_fails :
  (create_user (C:=Reference.toy_context) "nacl" carol_input commit_fails).1
  = Raise OperationalError ∧
  users (create_user (C:=Reference.toy_context) "nacl" carol_input
                     commit_fails).2 = [bob_row; alice_row; carol_row].
Proof. split; vm_compute; reflexivity. Qed.

(** X11. A request that ends in an exception leaves the table as it was,
    whatever the engine does, with one exception: POST /users whose commit
    went through and whose refresh then failed raises the engine's error
    and leaves the new row stored. *)
Theorem failed_request_keeps_table {C : CryptContext} {J : Jose}
    (r : request) (w : World) (e : exn) :
  serve_failure r w = Some e →
  match r with
  | PostUsers salt input_user =>
      users (serve r w) = users w ∨
      e = OperationalError ∧
      ∃ h, get_password_hash salt (in_password input_user) = Ok h ∧
           users (serve r w)
           = (users w ++
              [mkUser (next_id (users w)) (in_username input_user) h
                      (in_nama input_user) (in_jenis_kelamin input_user)
                      (in_tanggal_lahir input_user)])%list
  | _ => users (serve r w) = users w
  end.
Proof.
  destruct r; simpl.
  - intros _. apply login_users.
  - run. destruct (get_password_hash _ _) as [h|e'] eqn:Hh; simpl;
      [|by left].
    case_faults; try (by left).
    all: case_fits; try (by left).
    all: destruct (find_by_username _ _); simpl; try (by left).
    all: case_faults; try done.
    all: intros [= <-]; right; split; [done|]; by exists h.
  - intros _. apply daftar_user_users.
  - intros _. apply get_users_users.
  - run. case_faults; try done.
    all: case_fits; try done.
    all: destruct (find_by_id _ _); simpl; case_faults; done.
  - run. case_faults; try done.
    all: case_fits; try done.
    all: destruct (find_by_id _ _); simpl; case_faults; try done.
    all: case_fits; done.
Qed.

Lemma failed_request_keeps_table_witness :
  serve_failure (C:=Reference.toy_context) (J:=Reference.sym_jose)
    (DeleteUser 1) commit_fails = Some OperationalError ∧
  users (serve (C:=Reference.toy_context) (J:=Reference.sym_jose)
               (DeleteUser 1) commit_fails) = [bob_row; alice_row].
Proof.
  split; [reflexivity|].
  exact (failed_request_keeps_table (C:=Reference.toy_context)
           (J:=Reference.sym_jose) (DeleteUser 1) commit_fails
           OperationalError eq_refl).
Defined.

(** ** Sessions over many requests *)

(** X13. [get_db] closes the session it made whether the body returns or
    raises: for a body that itself opens and closes nothing, the live
    sessions after the call are those before it, the last event is the
    close of the session, and the call returns or raises what the body
    did. *)
Theorem get_db_closes_session {A} (body : nat → M A) (w : World) :
  session_ok w →
  (∀ w1, live (body (sessions_made w) w1).2 = live w1) →
  live (get_db body w).2 = live w ∧
  (get_db body w).1 = (body (sessions_made w) (SessionLocal w).2).1 ∧
  ∃ before,
    trace (get_db body w).2 = (before ++ [Release (sessions_made w)])%list.
Proof.
  intros Hok Hbody. unfold get_db, finally, close.
  unfold mbind, M_bind, bind. simpl.
  pose proof (Hbody (SessionLocal w).2) as Hl. simpl in Hl.
  destruct (body (sessions_made w) _) as [r w1] eqn:Hb. simpl in *.
  destruct r; simpl; rewrite Hl.
  all: split; [by apply filter_close_fresh|]; split; [done | eauto].
Qed.

Lemma get_db_closes_session_witness :
  let body := λ db : nat, stmt db;; raise (A:=unit) IntegrityError in
  live (get_db body query_fails).2 = [] ∧
  (get_db body query_fails).1 = Raise OperationalError ∧
  ∃ before, trace (get_db body query_fails).2 = (before ++ [Release 2%nat])%list.
Proof.
  assert (Hok : session_ok query_fails) by constructor.
  assert (Hbody : ∀ w1,
            live ((λ db : nat, stmt db;; raise (A:=unit) IntegrityError)
                    (sessions_made query_fails) w1).2 = live w1).
  { intros w1. unfold stmt, raise, mbind, M_bind, bind.
    by destruct (faults w1) as [|[] fs]. }
  exact (get_db_closes_session
           (λ db : nat, stmt db;; raise (A:=unit) IntegrityError) query_fails
           Hok Hbody).
Defined.

Section Sequences.
Context {C : CryptContext} {J : Jose}.

End Sequences.



(** ** Looking a user up by name *)



(** ** Sessions when the engine fails *)

Ltac leak_cases Hok :=
  simpl; rewrite ?filter_close_fresh by done;
  rewrite ?filter_close_absent by done;
  split; [by auto|]; split; [|done];
  unfold session_ok; simpl;
  first
    [ eapply Forall_impl; [exact Hok|]; simpl; lia
    | apply Forall_app; split;
      [ eapply Forall_impl; [exact Hok|]; simpl; lia
      | repeat constructor; lia ] ].

(** X17. Whatever the engine does, a request makes exactly one session,
    closes no session but its own, and leaves at most its own session
    open: the live sessions after it are those before it, with or without
    the new one at the end. *)
Theorem at_most_own_session_left {C : CryptContext} {J : Jose}
    (r : request) (w : World) :
  session_ok w →
  (live (serve r w) = live w ∨
   live (serve r w) = (live w ++ [sessions_made w])%list) ∧
  session_ok (serve r w) ∧
  sessions_made (serve r w) = S (sessions_made w).
Proof.
  intros Hok. unfold session_ok in Hok. destruct r; simpl; run.
  all: try (destruct (get_password_hash _ _); simpl).
  all: case_faults; case_fits.
  all: try (destruct (find_by_username _ _) as [u|]; simpl).
  all: try (destruct (verify_password _ _) as [[]|]; simpl).
  all: try (destruct (find_by_id _ _) as [u|]; simpl).
  all: case_faults; case_fits.
  all: leak_cases Hok.
Qed.

Lemma at_most_own_session_left_witness :
  (live (serve (C:=Reference.toy_context) (J:=Reference.sym_jose)
               (DeleteUser 1) commit_fails) = live commit_fails ∨
   live (serve (C:=Reference.toy_context) (J:=Reference.sym_jose)
               (DeleteUser 1) commit_fails) = [2%nat]) ∧
  session_ok (serve (C:=Reference.toy_context) (J:=Reference.sym_jose)
                    (DeleteUser 1) commit_fails) ∧
  sessions_made (serve (C:=Reference.toy_context) (J:=Reference.sym_jose)
                       (DeleteUser 1) commit_fails) = 3%nat.
Proof.
  assert (Hok : session_ok commit_fails) by constructor.
  exact (at_most_own_session_left (C:=Reference.toy_context)
           (J:=Reference.sym_jose) (DeleteUser 1) commit_fails Hok).
Defined.
